(** * redux-crud-thunk: CRUD thunks and their reducers

    A shallow embedding of [src/index.ts]: the payload creator that
    [createCrudThunk] hands to the host framework, the five merge policies of
    [operationFulfilled], and the three case reducers that
    [registerCrudReducers] attaches for every operation.

    JavaScript arrays are lists; the array methods the source calls
    ([push], [map], [findIndex], [splice]) are written out with the index
    arithmetic of the language standard, on [Z] where an index may be
    negative.  The reducers mutate an Immer draft in place; here each
    assignment is a record update and the draft is threaded explicitly.  The
    draft's list only ever receives elements ([push]), never an array by
    reference, so a payload is never the list it is merged into. *)

From Stdlib Require Import List String ZArith Lia Bool.
Import ListNotations.

Set Implicit Arguments.

(** ** JavaScript arrays *)

Module JsArray.
Section Ops.
Context {A : Type}.

(** [arr.length], as the integer the index arithmetic uses. *)
Definition len (arr : list A) : Z := Z.of_nat (List.length arr).

(** [arr.push(...items)]: the array afterwards. *)
Definition push (arr items : list A) : list A := arr ++ items.

(** [arr.findIndex(pred)]: the lowest index whose element satisfies
    [pred], or -1. [k] is the index of the head of [arr]. *)
Fixpoint findIndexFrom (pred : A -> bool) (arr : list A) (k : Z) : Z :=
  match arr with
  | [] => (-1)%Z
  | x :: rest => if pred x then k else findIndexFrom pred rest (k + 1)%Z
  end.

Definition findIndex (pred : A -> bool) (arr : list A) : Z :=
  findIndexFrom pred arr 0%Z.

(** The clamping of [splice]'s first argument: a negative start counts
    from the end and stops at 0, a start beyond the end stops at the
    length. *)
Definition actualStart (arr : list A) (start : Z) : Z :=
  if (start <? 0)%Z then Z.max (len arr + start) 0 else Z.min start (len arr).

(** [arr.splice(start)]: with the delete count absent, everything from the
    actual start to the end is removed.  The array afterwards. *)
Definition spliceFrom (arr : list A) (start : Z) : list A :=
  firstn (Z.to_nat (actualStart arr start)) arr.

(** [arr.splice(start, deleteCount)] with no items to insert: the array
    afterwards. *)
Definition splice (arr : list A) (start deleteCount : Z) : list A :=
  let s := actualStart arr start in
  let dc := Z.min (Z.max deleteCount 0) (len arr - s) in
  firstn (Z.to_nat s) arr ++ skipn (Z.to_nat (s + dc)) arr.
End Ops.
End JsArray.

(** ** Data model *)

(** [CrudAction = "create" | "update" | "delete" | "list" | "get"] *)
Inductive CrudAction : Type := OpCreate | OpUpdate | OpDelete | OpList | OpGet.

Definition crudActionName (k : CrudAction) : string :=
  match k with
  | OpCreate => "create"%string
  | OpUpdate => "update"%string
  | OpDelete => "delete"%string
  | OpList => "list"%string
  | OpGet => "get"%string
  end.

(** [T extends { id: string }]. The test suite's entity declares [id?: string],
    so an identifier is a string or [undefined] ([None]). *)
Class HasId (T : Type) : Type := { id : T -> option string }.

(** [a === b] on identifiers. *)
Definition strictEq (a b : option string) : bool :=
  match a, b with
  | Some x, Some y => String.eqb x y
  | None, None => true
  | _, _ => false
  end.

(** A value a rejection can carry: [undefined], a string, or anything else
    ([F]). The
    [error] slot is declared [string], and [action.payload as string] is a
    cast that checks nothing at run time. *)
Inductive JsValue (F : Type) : Type :=
| JsUndefined
| JsString (s : string)
| JsOther (f : F).
Arguments JsUndefined {F}.
Arguments JsString {F} s.
Arguments JsOther {F} f.

(** [EntityState<T>] *)
Record EntityState (T F : Type) : Type := mkEntityState {
  isLoading : bool;
  error : JsValue F;
  entityList : list T;
  selectedEntity : option T
}.

Section Setters.
Context {T F : Type}.
Local Notation "'State'" := (EntityState T F).

Definition set_isLoading (b : bool) (s : State) : State :=
  mkEntityState b (error s) (entityList s) (selectedEntity s).
Definition set_error (e : JsValue F) (s : State) : State :=
  mkEntityState (isLoading s) e (entityList s) (selectedEntity s).
Definition set_entityList (l : list T) (s : State) : State :=
  mkEntityState (isLoading s) (error s) l (selectedEntity s).
Definition set_selectedEntity (o : option T) (s : State) : State :=
  mkEntityState (isLoading s) (error s) (entityList s) o.
End Setters.

(** ** Reducers *)

Section Reducers.
Context {T F : Type} `{HasId T}.
Local Notation "'State'" := (EntityState T F).

(** The payload a fulfilled action carries, by operation
    ([CrudThunks<T, IDType>]): [T[]] for [list], [T] for the others. *)
Definition PayloadOf (k : CrudAction) : Type :=
  match k with
  | OpList => list T
  | _ => T
  end.

(** [operationFulfilled[key](payload, state)] *)
Definition operationFulfilled (k : CrudAction) : PayloadOf k -> State -> State :=
  match k with
  | OpCreate => fun payload state =>
      set_entityList (JsArray.push (entityList state) [payload]) state
  | OpUpdate => fun payload state =>
      let updatedArray :=
        map (fun entity =>
               if strictEq (id entity) (id payload) then payload else entity)
            (entityList state) in
      let state1 :=
        set_entityList
          (JsArray.splice (entityList state) 0 (JsArray.len (entityList state)))
          state in
      set_entityList (JsArray.push (entityList state1) updatedArray) state1
  | OpList => fun payload state =>
      let state1 :=
        set_entityList
          (JsArray.splice (entityList state) 0 (JsArray.len (entityList state)))
          state in
      set_entityList (JsArray.push (entityList state1) payload) state1
  | OpDelete => fun payload state =>
      set_entityList
        (JsArray.spliceFrom (entityList state)
           (JsArray.findIndex
              (fun entity => strictEq (id entity) (id payload))
              (entityList state)))
        state
  | OpGet => fun payload state =>
      set_selectedEntity (Some payload) state
  end.

(** The case reducers [registerCrudReducers] adds for every key of
    [crudThunks], on the fragment [getEntityState] returns. *)
Definition pendingCase (entityState : State) : State :=
  set_error (JsString EmptyString) (set_isLoading true entityState).

Definition fulfilledCase (k : CrudAction) (payload : PayloadOf k)
    (entityState : State) : State :=
  operationFulfilled k payload
    (set_error (JsString EmptyString) (set_isLoading false entityState)).

Definition rejectedCase (payload : JsValue F) (entityState : State) : State :=
  set_isLoading false (set_error payload entityState).

(** The lifecycle actions of the five thunks. *)
Inductive Action : Type :=
| Pending (k : CrudAction)
| Fulfilled (k : CrudAction) (payload : PayloadOf k)
| Rejected (k : CrudAction) (payload : JsValue F).

(** The reducer the builder holds once [registerCrudReducers] has run. *)
Definition crudReducer (entityState : State) (action : Action) : State :=
  match action with
  | Pending _ => pendingCase entityState
  | Fulfilled k payload => fulfilledCase k payload entityState
  | Rejected _ payload => rejectedCase payload entityState
  end.
(** Applying the merge policy of [k] twice with one payload gives what
    applying it once gives. *)
Definition idempotent (k : CrudAction) : Prop :=
  forall (s : State) (payload : PayloadOf k),
    operationFulfilled k payload (operationFulfilled k payload s) =
    operationFulfilled k payload s.
End Reducers.

Arguments PayloadOf : clear implicits.
Arguments Action : clear implicits.
Arguments idempotent T F {H} k.
Arguments Pending {T F} k.
Arguments Fulfilled {T F} k payload.
Arguments Rejected {T F} k payload.

(** ** Thunks *)

(** How the evaluation of an expression ends: with a value, or with a thrown
    exception. *)
Inductive Completion (F A : Type) : Type :=
| Returns (a : A)
| Throws (e : JsValue F).
Arguments Returns {F A} a.
Arguments Throws {F A} e.

(** What becomes of a promise. *)
Inductive Promise (F A : Type) : Type :=
| Resolves (a : A)
| Rejects (e : JsValue F)
| NeverSettles.
Arguments Resolves {F A} a.
Arguments Rejects {F A} e.
Arguments NeverSettles {F A}.

(** What a payload creator hands back to the host: the resolved value, or the
    object [rejectWithValue] builds. *)
Inductive PayloadCreatorResult (F T : Type) : Type :=
| Value (v : T)
| RejectWithValue (payload : JsValue F).
Arguments Value {F T} v.
Arguments RejectWithValue {F T} payload.

(** How a dispatched thunk settles. *)
Inductive Settled (F T : Type) : Type :=
| FulfilledWith (payload : T)
| RejectedWithValue (payload : JsValue F)
| RejectedWithError (error : JsValue F).
Arguments FulfilledWith {F T} payload.
Arguments RejectedWithValue {F T} payload.
Arguments RejectedWithError {F T} error.

(** The body of an [async] function: it completes, or it stays suspended at an
    [await] for ever ([None]). *)
Definition Async (F A : Type) : Type := option (Completion F A).

(** [AsyncThunk<T, P, {}>] *)
Record AsyncThunk (F P T : Type) : Type := mkAsyncThunk {
  typePrefix : string;
  payloadCreator : P -> Async F (PayloadCreatorResult F T)
}.

Section Thunks.
Context {F : Type}.

Definition ret {A : Type} (a : A) : Async F A := Some (Returns a).

Definition bind {A B : Type} (m : Async F A) (k : A -> Async F B) : Async F B :=
  match m with
  | Some (Returns a) => k a
  | Some (Throws e) => Some (Throws e)
  | None => None
  end.

(** Evaluating a call expression. *)
Definition call {A : Type} (c : Completion F A) : Async F A := Some c.

(** [await p] *)
Definition await {A : Type} (p : Promise F A) : Async F A :=
  match p with
  | Resolves a => Some (Returns a)
  | Rejects e => Some (Throws e)
  | NeverSettles => None
  end.

(** [try { body } catch (error) { handler }] *)
Definition tryCatch {A : Type} (body : Async F A)
    (handler : JsValue F -> Async F A) : Async F A :=
  match body with
  | Some (Throws error) => handler error
  | other => other
  end.

Definition rejectWithValue {T : Type} (value : JsValue F)
    : PayloadCreatorResult F T :=
  RejectWithValue value.

(** Modelled from the spec: the host framework's [createAsyncThunk] and its
    dispatch of the settled action are not part of this repository.  A
    payload creator that returns a value settles the action as fulfilled
    carrying it; one that returns the [rejectWithValue] object settles it as
    rejected carrying the value as-is; an exception that escapes the payload
    creator settles it as rejected with the error and no payload; while the
    payload creator is suspended the action stays pending. *)
Definition createAsyncThunk {P T : Type} (typePrefix : string)
    (payloadCreator : P -> Async F (PayloadCreatorResult F T))
    : AsyncThunk F P T :=
  mkAsyncThunk typePrefix payloadCreator.

(** Modelled from the spec: how the host settles a dispatched thunk, from
    what its payload creator does with the argument. *)
Definition settle {P T : Type} (thunk : AsyncThunk F P T) (arg : P)
    : option (Settled F T) :=
  match payloadCreator thunk arg with
  | Some (Returns (Value v)) => Some (FulfilledWith v)
  | Some (Returns (RejectWithValue value)) => Some (RejectedWithValue value)
  | Some (Throws e) => Some (RejectedWithError e)
  | None => None
  end.

(** [createCrudThunk] *)
Definition createCrudThunk {T P : Type} (operation : CrudAction)
    (slice entityName : string)
    (serviceFunction : P -> Completion F (Promise F T)) : AsyncThunk F P T :=
  createAsyncThunk
    (slice ++ "/" ++ crudActionName operation ++ entityName)%string
    (fun actionPayload =>
       tryCatch
         (bind (bind (call (serviceFunction actionPayload)) await)
               (fun v => ret (Value v)))
         (fun error => ret (rejectWithValue error))).
End Thunks.

(** The action a settled thunk of operation [k] dispatches. *)
Definition settledAction {T F : Type} (k : CrudAction)
    (r : Settled F (PayloadOf T k)) : Action T F :=
  match r with
  | FulfilledWith payload => @Fulfilled T F k payload
  | RejectedWithValue payload => @Rejected T F k payload
  | RejectedWithError _ => @Rejected T F k JsUndefined
  end.

(** ** The bundle of five thunks *)

(** [EntityService<T, IDType>]: the five functions [createCrudThunks] reads.
    [createChildService] is declared in the type and never read by this
    module; [ListParameters] is passed on to [list] and never inspected, so it
    is a type parameter here. *)
Module EntityService.
Record t (F T IDType ListParameters : Type) : Type := mk {
  list : ListParameters -> Completion F (Promise F (Datatypes.list T));
  create : T -> Completion F (Promise F T);
  update : T -> Completion F (Promise F T);
  delete : T -> Completion F (Promise F T);
  get : IDType -> Completion F (Promise F T)
}.
End EntityService.

(** [CrudThunks<T, IDType>] *)
Module CrudThunks.
Record t (F T IDType ListParameters : Type) : Type := mk {
  create : AsyncThunk F T T;
  update : AsyncThunk F T T;
  delete : AsyncThunk F T T;
  list : AsyncThunk F ListParameters (Datatypes.list T);
  get : AsyncThunk F IDType T
}.
End CrudThunks.

(** [createCrudThunks] *)
Definition createCrudThunks {F T IDType ListParameters : Type}
    (slice entityName : string)
    (entityService : EntityService.t F T IDType ListParameters)
    : CrudThunks.t F T IDType ListParameters :=
  {| CrudThunks.create :=
       createCrudThunk OpCreate slice entityName
         (EntityService.create entityService);
     CrudThunks.update :=
       createCrudThunk OpUpdate slice entityName
         (EntityService.update entityService);
     CrudThunks.delete :=
       createCrudThunk OpDelete slice entityName
         (EntityService.delete entityService);
     CrudThunks.list :=
       createCrudThunk OpList slice entityName
         (EntityService.list entityService);
     CrudThunks.get :=
       createCrudThunk OpGet slice entityName
         (EntityService.get entityService) |}.

(** The argument a thunk is dispatched with, by operation. *)
Definition ArgOf (T IDType ListParameters : Type) (k : CrudAction) : Type :=
  match k with
  | OpList => ListParameters
  | OpGet => IDType
  | _ => T
  end.

(** [crudThunks[key]] *)
Definition thunkOf {F T IDType ListParameters : Type}
    (crudThunks : CrudThunks.t F T IDType ListParameters) (key : CrudAction)
    : AsyncThunk F (ArgOf T IDType ListParameters key) (PayloadOf T key) :=
  match key with
  | OpCreate => CrudThunks.create crudThunks
  | OpUpdate => CrudThunks.update crudThunks
  | OpDelete => CrudThunks.delete crudThunks
  | OpList => CrudThunks.list crudThunks
  | OpGet => CrudThunks.get crudThunks
  end.

(** [Object.keys(params.crudThunks)]: the keys in the order the object
    literal of [createCrudThunks] lists them. *)
Definition crudKeys : list CrudAction :=
  [OpCreate; OpUpdate; OpDelete; OpList; OpGet].

(** ** The builder *)

Inductive Phase : Type := PhasePending | PhaseFulfilled | PhaseRejected.

Definition phaseName (ph : Phase) : string :=
  match ph with
  | PhasePending => "pending"%string
  | PhaseFulfilled => "fulfilled"%string
  | PhaseRejected => "rejected"%string
  end.

(** Modelled from the spec: the action creators [thunk.pending],
    [thunk.fulfilled] and [thunk.rejected] belong to the host framework,
    which names their actions by the thunk's type prefix and the phase. *)
Definition phaseType {F P T : Type} (thunk : AsyncThunk F P T) (ph : Phase)
    : string :=
  (typePrefix thunk ++ "/" ++ phaseName ph)%string.

(** A case of the builder: the action type it is registered for and its
    reducer.  The reducers of the pending and rejected cases are the same
    closure for every key; the reducer of a fulfilled case reads the payload
    at the type of its key. *)
Inductive Case (T F : Type) : Type :=
| CasePending (type : string)
    (reducer : EntityState T F -> EntityState T F)
| CaseFulfilled (type : string) (key : CrudAction)
    (reducer : PayloadOf T key -> EntityState T F -> EntityState T F)
| CaseRejected (type : string)
    (reducer : JsValue F -> EntityState T F -> EntityState T F).
Arguments CasePending {T F} type reducer.
Arguments CaseFulfilled {T F} type key reducer.
Arguments CaseRejected {T F} type reducer.

Definition caseType {T F : Type} (c : Case T F) : string :=
  match c with
  | CasePending type _ => type
  | CaseFulfilled type _ _ => type
  | CaseRejected type _ => type
  end.

Definition CrudAction_eq_dec (a b : CrudAction) : {a = b} + {a <> b}.
Proof. decide equality. Defined.

Section Builder.
Context {F T IDType ListParameters : Type} `{HasId T}.
Local Notation "'State'" := (EntityState T F).
Local Notation "'Thunks'" := (CrudThunks.t F T IDType ListParameters).

(** Modelled from the spec: [builder.addCase] of the host framework adds one
    case to the builder. *)
Definition addCase (builder : list (Case T F)) (c : Case T F)
    : list (Case T F) :=
  builder ++ [c].

(** [registerCrudReducers], with [getEntityState] the fragment itself. *)
Definition registerCrudReducers (builder : list (Case T F))
    (crudThunks : Thunks) : list (Case T F) :=
  fold_left
    (fun builder key =>
       let builder :=
         addCase builder
           (CasePending (phaseType (thunkOf crudThunks key) PhasePending)
              pendingCase) in
       let builder :=
         addCase builder
           (CaseFulfilled (phaseType (thunkOf crudThunks key) PhaseFulfilled)
              key (fulfilledCase key)) in
       addCase builder
         (CaseRejected (phaseType (thunkOf crudThunks key) PhaseRejected)
            rejectedCase))
    crudKeys builder.

(** The type the host gives a lifecycle action of one of the thunks. *)
Definition actionType (crudThunks : Thunks) (action : Action T F) : string :=
  match action with
  | Pending k => phaseType (thunkOf crudThunks k) PhasePending
  | Fulfilled k _ => phaseType (thunkOf crudThunks k) PhaseFulfilled
  | Rejected k _ => phaseType (thunkOf crudThunks k) PhaseRejected
  end.

(** Running the reducer of a case on an action.  The pending reducer does
    not read the action; the rejected reducer reads its payload, which a
    pending action does not have; [None] when the payload of the action is
    not of the type the reducer of the case reads. *)
Definition runCase (c : Case T F) (action : Action T F) (state : State)
    : option State :=
  match c with
  | CasePending _ reducer => Some (reducer state)
  | CaseFulfilled _ key reducer =>
      match action with
      | Fulfilled k payload =>
          match CrudAction_eq_dec k key with
          | left e => Some (reducer (eq_rect k (PayloadOf T) payload key e) state)
          | right _ => None
          end
      | _ => None
      end
  | CaseRejected _ reducer =>
      match action with
      | Rejected _ payload => Some (reducer payload state)
      | Pending _ => Some (reducer JsUndefined state)
      | Fulfilled _ _ => None
      end
  end.

(** Modelled from the spec: the reducer the host builds from the cases runs
    the case registered for the type of the action, and leaves the state as
    it is when there is none. *)
Definition reduce (builder : list (Case T F)) (crudThunks : Thunks)
    (state : State) (action : Action T F) : option State :=
  match find (fun c => String.eqb (caseType c) (actionType crudThunks action))
             builder with
  | Some c => runCase c action state
  | None => Some state
  end.

(** Modelled from the spec: dispatching a thunk and awaiting it.  The host
    dispatches the pending action, runs the payload creator, and dispatches
    the action it settles with; a thunk that never settles leaves the state
    as the pending action made it. *)
Definition dispatch (crudThunks : Thunks) (key : CrudAction)
    (arg : ArgOf T IDType ListParameters key) (state : State) : State :=
  let pending := crudReducer state (Pending key) in
  match settle (thunkOf crudThunks key) arg with
  | Some settled => crudReducer pending (settledAction key settled)
  | None => pending
  end.
End Builder.

(** Whether an action is a fulfilled one whose merge policy writes the
    list, and whether it is the fulfilled action of [get]. *)
Definition writesList {T F : Type} (action : Action T F) : bool :=
  match action with
  | Fulfilled OpGet _ => false
  | Fulfilled _ _ => true
  | _ => false
  end.

Definition isGetFulfilled {T F : Type} (action : Action T F) : bool :=
  match action with
  | Fulfilled OpGet _ => true
  | _ => false
  end.

(** ** The entity of the test suite *)

(** [interface User { id?: string; name: string }] *)
Record User : Type := mkUser { user_id : option string; name : string }.

#[export] Instance User_HasId : HasId User := {| id := user_id |}.

(** ** Sample data *)

Module Sample.
Definition user (i n : string) : User := mkUser (Some i) n.

Definition existing : User := user "10" "Existing User".
Definition updated : User := user "10" "Updated User".
Definition sonikro : User := user "1" "Sonikro".
Definition other : User := user "2" "Other".

(** [initialState] of the test suite, with a list put in. *)
Definition stateOf (l : list User) : EntityState User unit :=
  mkEntityState false (JsString EmptyString) l None.

Definition initialState : EntityState User unit := stateOf [].
End Sample.

(** [entityService[key]]: the service function [createCrudThunks] hands to
    the thunk of [key]. *)
Definition serviceOf {F T IDType ListParameters : Type}
    (entityService : EntityService.t F T IDType ListParameters)
    (key : CrudAction)
    : ArgOf T IDType ListParameters key ->
      Completion F (Promise F (PayloadOf T key)) :=
  match key with
  | OpCreate => EntityService.create entityService
  | OpUpdate => EntityService.update entityService
  | OpDelete => EntityService.delete entityService
  | OpList => EntityService.list entityService
  | OpGet => EntityService.get entityService
  end.

(** The function the [update] policy maps over the list. *)
Definition replaceWith {T : Type} `{HasId T} (payload entity : T) : T :=
  if strictEq (id entity) (id payload) then payload else entity.

(** The state after a sequence of lifecycle actions, reduced in order. *)
Definition reduceAll {T F : Type} `{HasId T} (state : EntityState T F)
    (actions : list (Action T F)) : EntityState T F :=
  fold_left crudReducer actions state.

(** The service of the test suite, and a service whose every call fails. *)
Module Mock.
Definition MockUserService : EntityService.t unit User string unit :=
  {| EntityService.create := fun user =>
       Returns (Resolves (mkUser (Some "1"%string) (name user)));
     EntityService.delete := fun user => Returns (Resolves user);
     EntityService.get := fun _ => Returns (Resolves Sample.sonikro);
     EntityService.list := fun _ => Returns (Resolves [Sample.existing]);
     EntityService.update := fun user => Returns (Resolves user) |}.

Definition userActions : CrudThunks.t unit User string unit :=
  createCrudThunks "user" "user" MockUserService.

Definition failing (e : JsValue unit) : EntityService.t unit User string unit :=
  {| EntityService.create := fun _ => Returns (Rejects e);
     EntityService.delete := fun _ => Throws e;
     EntityService.get := fun _ => Returns (Rejects e);
     EntityService.list := fun _ => Returns NeverSettles;
     EntityService.update := fun _ => Returns (Rejects e) |}.
End Mock.

(** * Properties *)

Unset Implicit Arguments.

(** ** Strict equality of identifiers *)

Lemma strictEq_true_iff (a b : option string) : strictEq a b = true <-> a = b.
Proof.
  destruct a as [x|], b as [y|]; simpl; try (split; [discriminate | congruence]).
  - rewrite String.eqb_eq. split; congruence.
  - split; reflexivity.
Qed.

Lemma strictEq_refl (a : option string) : strictEq a a = true.
Proof. now apply strictEq_true_iff. Qed.

Lemma strictEq_false_iff (a b : option string) : strictEq a b = false <-> a <> b.
Proof.
  rewrite <- strictEq_true_iff. destruct (strictEq a b); split; congruence.
Qed.

(** ** Array methods *)

Module JsArrayFacts.
Import JsArray.
Section Facts.
Context {A : Type}.
Implicit Types (arr pre post : list A) (pred : A -> bool).

Lemma len_nonneg arr : (0 <= len arr)%Z.
Proof. unfold len. lia. Qed.

Lemma splice_all arr : splice arr 0 (len arr) = [].
Proof.
  unfold splice, actualStart. pose proof (len_nonneg arr) as Hl. simpl.
  rewrite Z.min_l by lia. rewrite Z.sub_0_r, Z.max_l by lia.
  rewrite Z.min_id. simpl. unfold len. rewrite Nat2Z.id.
  apply skipn_all.
Qed.

Lemma findIndexFrom_none pred arr k :
  (forall x, In x arr -> pred x = false) -> findIndexFrom pred arr k = (-1)%Z.
Proof.
  revert k. induction arr as [|x rest IH]; intros k Hno; simpl.
  - reflexivity.
  - rewrite (Hno x) by now left. apply IH. intros y Hy. apply Hno. now right.
Qed.

Lemma findIndexFrom_first pred pre x post k :
  (forall e, In e pre -> pred e = false) -> pred x = true ->
  findIndexFrom pred (pre ++ x :: post) k = (k + Z.of_nat (List.length pre))%Z.
Proof.
  revert k. induction pre as [|y pre IH]; intros k Hno Hx; simpl.
  - rewrite Hx. lia.
  - rewrite (Hno y) by now left.
    rewrite IH; [lia | | exact Hx]. intros e He. apply Hno. now right.
Qed.

Lemma spliceFrom_minus1 arr : spliceFrom arr (-1) = removelast arr.
Proof.
  unfold spliceFrom, actualStart, len. simpl.
  rewrite removelast_firstn_len. f_equal.
  destruct arr as [|x rest]; simpl List.length.
  - reflexivity.
  - rewrite Z.max_l by lia. lia.
Qed.

Lemma spliceFrom_nat arr (i : nat) :
  i <= List.length arr -> spliceFrom arr (Z.of_nat i) = firstn i arr.
Proof.
  intros Hi. unfold spliceFrom, actualStart, len.
  destruct (Z.ltb_spec (Z.of_nat i) 0) as [Hneg|_]; [lia|].
  rewrite Z.min_l by lia. now rewrite Nat2Z.id.
Qed.

Lemma in_firstn_nth_error arr (i : nat) e :
  In e (firstn i arr) -> exists j, j < i /\ nth_error arr j = Some e.
Proof.
  revert i. induction arr as [|x rest IH]; intros [|i]; simpl; try tauto.
  intros [->|Hin].
  - exists 0. split; [lia | reflexivity].
  - destruct (IH i Hin) as (j & Hj & Hnth). exists (S j). split; [lia | exact Hnth].
Qed.

Lemma nth_error_decompose arr (i : nat) x :
  nth_error arr i = Some x ->
  arr = firstn i arr ++ x :: skipn (S i) arr /\ List.length (firstn i arr) = i.
Proof.
  revert i. induction arr as [|y rest IH]; intros [|i]; simpl; try discriminate.
  - intros [= ->]. split; reflexivity.
  - intros Hnth. destruct (IH i Hnth) as [Heq Hlen]. split.
    + f_equal. exact Heq.
    + now rewrite Hlen.
Qed.
End Facts.
End JsArrayFacts.

(** ** The merge policy of [delete] *)

Section DeleteFulfilled.
Context {T F : Type} `{HasId T}.
Implicit Types (s : EntityState T F) (p e : T).

Import JsArray JsArrayFacts.

(** What the policy leaves in the list, with the array methods unfolded. *)
Lemma delete_entityList s p :
  entityList (crudReducer s (Fulfilled OpDelete p)) =
  spliceFrom (entityList s)
    (findIndex (fun e => strictEq (id e) (id p)) (entityList s)).
Proof. reflexivity. Qed.

(** With the first match at the end of [pre], only [pre] is left. *)
Lemma delete_keeps_prefix s p pre x post :
  entityList s = pre ++ x :: post ->
  (forall e, In e pre -> id e <> id p) ->
  id x = id p ->
  entityList (crudReducer s (Fulfilled OpDelete p)) = pre.
Proof.
  intros Hl Hpre Hx. rewrite delete_entityList, Hl. unfold findIndex.
  rewrite findIndexFrom_first.
  - rewrite Z.add_0_l, spliceFrom_nat by (rewrite length_app; lia).
    rewrite firstn_app, Nat.sub_diag, firstn_all. simpl. apply app_nil_r.
  - intros e He. apply strictEq_false_iff. now apply Hpre.
  - apply strictEq_true_iff. exact Hx.
Qed.

(** The same, by the index of the first match. *)
Lemma delete_keeps_firstn s p (i : nat) x :
  nth_error (entityList s) i = Some x ->
  id x = id p ->
  (forall j e, j < i -> nth_error (entityList s) j = Some e -> id e <> id p) ->
  entityList (crudReducer s (Fulfilled OpDelete p)) = firstn i (entityList s) /\
  List.length (firstn i (entityList s)) = i.
Proof.
  intros Hnth Hx Hbefore.
  destruct (nth_error_decompose _ _ _ Hnth) as [Hsplit Hlen].
  split; [|exact Hlen].
  apply (delete_keeps_prefix s p _ _ _ Hsplit); [|exact Hx].
  intros e He. destruct (in_firstn_nth_error _ _ _ He) as (j & Hj & Hje).
  exact (Hbefore j e Hj Hje).
Qed.

(** C10: when the first element whose identifier equals the payload's is at
    index [i], the delete-fulfilled reducer leaves exactly the first [i]
    elements of the list: the match and everything after it are removed. *)
Theorem delete_fulfilled_truncates_at_first_match s p (i : nat) x :
  nth_error (entityList s) i = Some x ->
  id x = id p ->
  (forall j e, j < i -> nth_error (entityList s) j = Some e -> id e <> id p) ->
  let l' := entityList (crudReducer s (Fulfilled OpDelete p)) in
  l' = firstn i (entityList s) /\
  List.length l' = i /\
  (forall j, i <= j -> nth_error l' j = None).
Proof.
  intros Hnth Hx Hbefore l'.
  destruct (delete_keeps_firstn s p i x Hnth Hx Hbefore) as [Hl' Hlen].
  fold l' in Hl'. split; [exact Hl'|]. split.
  - now rewrite Hl'.
  - intros j Hj. apply nth_error_None. rewrite Hl', Hlen. exact Hj.
Qed.

(** C2: when no element's identifier equals the payload's, [findIndex]
    yields -1 and the delete-fulfilled reducer removes the trailing slice
    that starts at index -1: the last element of a non-empty list goes, so
    the list does not stay as it was. *)
Theorem delete_fulfilled_no_match_drops_last s p :
  (forall e, In e (entityList s) -> id e <> id p) ->
  let l' := entityList (crudReducer s (Fulfilled OpDelete p)) in
  findIndex (fun e => strictEq (id e) (id p)) (entityList s) = (-1)%Z /\
  l' = spliceFrom (entityList s) (-1) /\
  l' = removelast (entityList s) /\
  (forall init last, entityList s = init ++ [last] ->
     l' = init /\ S (List.length l') = List.length (entityList s) /\
     l' <> entityList s).
Proof.
  intros Hno l'.
  assert (Hidx : findIndex (fun e => strictEq (id e) (id p)) (entityList s) = (-1)%Z).
  { apply findIndexFrom_none. intros e He. apply strictEq_false_iff. now apply Hno. }
  assert (Hl' : l' = spliceFrom (entityList s) (-1)).
  { unfold l'. now rewrite delete_entityList, Hidx. }
  assert (Hrm : l' = removelast (entityList s)).
  { now rewrite Hl', spliceFrom_minus1. }
  split; [exact Hidx|]. split; [exact Hl'|]. split; [exact Hrm|].
  intros init last Hlast. rewrite Hrm, Hlast, removelast_last.
  split; [reflexivity|]. split.
  - rewrite length_app. simpl. lia.
  - intros Heq. apply (f_equal (@List.length T)) in Heq.
    rewrite length_app in Heq. simpl in Heq. lia.
Qed.
End DeleteFulfilled.

(** X20: the list shrinks by exactly one only when the first match is the
    last element. *)
Lemma delete_fulfilled_length_drop {T F : Type} `{HasId T}
    (s : EntityState T F) (p : T) (i : nat) (x : T) :
  nth_error (entityList s) i = Some x ->
  id x = id p ->
  (forall j e, j < i -> nth_error (entityList s) j = Some e -> id e <> id p) ->
  S (List.length (entityList (crudReducer s (Fulfilled OpDelete p)))) =
    List.length (entityList s) <->
  S i = List.length (entityList s).
Proof.
  intros Hnth Hx Hbefore.
  destruct (delete_keeps_firstn s p i x Hnth Hx Hbefore) as [Hl' Hlen].
  rewrite Hl', Hlen. reflexivity.
Qed.

(** C1: deleting the first of two entities. The payload is in the list and
    only its identifier matches, yet the reducer empties the list: the length
    drops by two, and the entity with the other identifier is gone as well. *)
Theorem delete_fulfilled_first_of_two_empties_list :
  let s := Sample.stateOf [Sample.sonikro; Sample.other] in
  let l' := entityList (crudReducer s (Fulfilled OpDelete Sample.sonikro)) in
  In Sample.sonikro (entityList s) /\
  id Sample.other <> id Sample.sonikro /\
  l' = [] /\
  ~ In Sample.other l' /\
  S (List.length l') <> List.length (entityList s).
Proof.
  cbv zeta. split; [now left|]. split; [discriminate|].
  split; [reflexivity|]. split; [intros []|]. simpl. discriminate.
Qed.

Lemma delete_fulfilled_truncates_at_first_match_witness :
  entityList
    (crudReducer (Sample.stateOf [Sample.sonikro; Sample.other; Sample.existing])
       (Fulfilled OpDelete Sample.other)) = [Sample.sonikro] /\
  List.length
    (entityList
       (crudReducer (Sample.stateOf [Sample.sonikro; Sample.other; Sample.existing])
          (Fulfilled OpDelete Sample.other))) = 1.
Proof.
  destruct (delete_fulfilled_truncates_at_first_match
              (Sample.stateOf [Sample.sonikro; Sample.other; Sample.existing])
              Sample.other 1 Sample.other) as (Hl & Hlen & _).
  - reflexivity.
  - reflexivity.
  - intros [|j] e Hj Hn; [|lia]. injection Hn as <-. discriminate.
  - split; [exact Hl | exact Hlen].
Defined.

Lemma delete_fulfilled_no_match_drops_last_witness :
  entityList
    (crudReducer (Sample.stateOf [Sample.sonikro; Sample.other])
       (Fulfilled OpDelete Sample.existing)) = [Sample.sonikro].
Proof.
  destruct (delete_fulfilled_no_match_drops_last
              (Sample.stateOf [Sample.sonikro; Sample.other]) Sample.existing)
    as (_ & _ & _ & Hlast).
  - intros e [<-|[<-|[]]]; discriminate.
  - exact (proj1 (Hlast [Sample.sonikro] Sample.other eq_refl)).
Defined.

(** ** The merge policies of [update], [create], [list] and [get] *)

Section MergePolicies.
Context {T F : Type} `{HasId T}.
Implicit Types (s : EntityState T F) (p e : T).

Import JsArray JsArrayFacts.

Lemma update_entityList s p :
  entityList (crudReducer s (Fulfilled OpUpdate p)) =
  map (fun e => if strictEq (id e) (id p) then p else e) (entityList s).
Proof. simpl. now rewrite splice_all. Qed.

(** C3: the update-fulfilled reducer keeps the length of the list, puts the
    payload at every position whose element has the payload's identifier,
    keeps every other element where it was, and leaves the list as it is
    when no identifier matches. *)
Theorem update_fulfilled_replaces_in_place s p :
  let l := entityList s in
  let l' := entityList (crudReducer s (Fulfilled OpUpdate p)) in
  List.length l' = List.length l /\
  (forall i e, nth_error l i = Some e -> id e = id p -> nth_error l' i = Some p) /\
  (forall i e, nth_error l i = Some e -> id e <> id p -> nth_error l' i = Some e) /\
  ((forall e, In e l -> id e <> id p) -> l' = l).
Proof.
  intros l l'. unfold l'. rewrite update_entityList. fold l.
  split; [apply length_map|]. split; [|split].
  - intros i e Hnth Hid. rewrite nth_error_map, Hnth. simpl.
    apply strictEq_true_iff in Hid. now rewrite Hid.
  - intros i e Hnth Hid. rewrite nth_error_map, Hnth. simpl.
    apply strictEq_false_iff in Hid. now rewrite Hid.
  - intros Hno. rewrite <- (map_id l) at 2. apply map_ext_in.
    intros e He. apply Hno, strictEq_false_iff in He. now rewrite He.
Qed.

(** C4: the create-fulfilled transition puts the payload at the end of the
    list, after the prior elements in their order, sets [isLoading] to
    false and [error] to the empty string; a second identical create
    appends the payload once more. *)
Theorem create_fulfilled_appends s p :
  let s' := crudReducer s (Fulfilled OpCreate p) in
  entityList s' = entityList s ++ [p] /\
  firstn (List.length (entityList s)) (entityList s') = entityList s /\
  List.length (entityList s') = S (List.length (entityList s)) /\
  isLoading s' = false /\
  error s' = JsString EmptyString /\
  entityList (crudReducer s' (Fulfilled OpCreate p)) = entityList s ++ [p; p].
Proof.
  simpl. unfold push. repeat split.
  - rewrite firstn_app, Nat.sub_diag, firstn_all. apply app_nil_r.
  - rewrite length_app. simpl. lia.
  - now rewrite <- app_assoc.
Qed.

(** C5: the list-fulfilled reducer makes the list the returned sequence, in
    its order, whatever the list held before, and leaves the selected
    entity as it was. *)
Theorem list_fulfilled_replaces (s : EntityState T F) (payload : list T) :
  let s' := crudReducer s (Fulfilled OpList payload) in
  entityList s' = payload /\ selectedEntity s' = selectedEntity s.
Proof. simpl. now rewrite splice_all. Qed.

(** C6: the get-fulfilled reducer sets the selected entity to the payload
    and leaves the list as it was. *)
Theorem get_fulfilled_selects s p :
  let s' := crudReducer s (Fulfilled OpGet p) in
  selectedEntity s' = Some p /\ entityList s' = entityList s.
Proof. split; reflexivity. Qed.
End MergePolicies.

Lemma update_fulfilled_replaces_in_place_witness :
  nth_error
    (entityList
       (crudReducer (Sample.stateOf [Sample.other; Sample.existing])
          (Fulfilled OpUpdate Sample.updated))) 1 = Some Sample.updated /\
  nth_error
    (entityList
       (crudReducer (Sample.stateOf [Sample.other; Sample.existing])
          (Fulfilled OpUpdate Sample.updated))) 0 = Some Sample.other /\
  entityList
    (crudReducer (Sample.stateOf [Sample.other]) (Fulfilled OpUpdate Sample.updated))
  = [Sample.other].
Proof.
  destruct (update_fulfilled_replaces_in_place
              (Sample.stateOf [Sample.other; Sample.existing]) Sample.updated)
    as (_ & Hhit & Hmiss & _).
  destruct (update_fulfilled_replaces_in_place
              (Sample.stateOf [Sample.other]) Sample.updated)
    as (_ & _ & _ & Hnone).
  split; [|split].
  - apply (Hhit 1 Sample.existing); reflexivity.
  - apply (Hmiss 0 Sample.other); [reflexivity | discriminate].
  - apply Hnone. intros e [<-|[]]. discriminate.
Defined.

(** ** The three phases *)

Section Lifecycle.
Context {T F : Type} `{HasId T}.

(** The merge policies leave the loading flag and the error slot alone. *)
Lemma operationFulfilled_flags (k : CrudAction) (payload : PayloadOf T k)
    (s : EntityState T F) :
  isLoading (operationFulfilled k payload s) = isLoading s /\
  error (operationFulfilled k payload s) = error s.
Proof. destruct k; split; reflexivity. Qed.

(** C7: for each of the five operations and every prior state, the pending
    reducer sets [isLoading] to true and [error] to the empty string; the
    rejected reducer sets [isLoading] to false and [error] to the value the
    action carries and leaves the list and the selection as they were; the
    fulfilled reducer is the merge policy applied to the state with
    [isLoading] false and [error] the empty string, and both still hold
    afterwards. *)
Theorem lifecycle_flags (k : CrudAction) (s : EntityState T F) :
  (isLoading (crudReducer s (Pending k)) = true /\
   error (crudReducer s (Pending k)) = JsString EmptyString) /\
  (forall v : JsValue F,
     isLoading (crudReducer s (Rejected k v)) = false /\
     error (crudReducer s (Rejected k v)) = v /\
     entityList (crudReducer s (Rejected k v)) = entityList s /\
     selectedEntity (crudReducer s (Rejected k v)) = selectedEntity s) /\
  (forall payload : PayloadOf T k,
     crudReducer s (Fulfilled k payload) =
       operationFulfilled k payload
         (set_error (JsString EmptyString) (set_isLoading false s)) /\
     isLoading (crudReducer s (Fulfilled k payload)) = false /\
     error (crudReducer s (Fulfilled k payload)) = JsString EmptyString).
Proof.
  split; [split; reflexivity|]. split.
  - intros v. repeat split.
  - intros payload. split; [reflexivity|]. simpl. unfold fulfilledCase.
    destruct (operationFulfilled_flags k payload
                (set_error (JsString EmptyString) (set_isLoading false s)))
      as [Hl He].
    rewrite Hl, He. split; reflexivity.
Qed.
End Lifecycle.

(** ** The payload creator *)

Section ThunkSettlement.
Context {F T P : Type}.

(** C8: when the promise of the service function resolves, the payload
    creator returns the resolved value and the thunk settles fulfilled with
    it; when it rejects, the payload
    creator returns the [rejectWithValue] object and the thunk settles
    rejected with the rejection's value as it is; no exception ever leaves
    the payload creator, whatever the service function does. *)
Theorem crud_thunk_settles (operation : CrudAction) (slice entityName : string)
    (serviceFunction : P -> Completion F (Promise F T)) (actionPayload : P) :
  let thunk := createCrudThunk operation slice entityName serviceFunction in
  (forall v : T,
     serviceFunction actionPayload = Returns (Resolves v) ->
     payloadCreator thunk actionPayload = Some (Returns (Value v)) /\
     settle thunk actionPayload = Some (FulfilledWith v)) /\
  (forall e : JsValue F,
     serviceFunction actionPayload = Returns (Rejects e) ->
     payloadCreator thunk actionPayload = Some (Returns (RejectWithValue e)) /\
     settle thunk actionPayload = Some (RejectedWithValue e)) /\
  (forall e : JsValue F, payloadCreator thunk actionPayload <> Some (Throws e)) /\
  (forall e : JsValue F, settle thunk actionPayload <> Some (RejectedWithError e)).
Proof.
  intros thunk. unfold settle. subst thunk. simpl.
  destruct (serviceFunction actionPayload) as [[v|e|]|e]; simpl;
    unfold ret, rejectWithValue;
    repeat split; intros; try split; congruence.
Qed.
End ThunkSettlement.

Lemma crud_thunk_settles_witness :
  settle
    (createCrudThunk (F := unit) OpCreate "user" "user"
       (fun user : User => Returns (Resolves (mkUser (Some "1"%string) (name user)))))
    (mkUser None "Sonikro") = Some (FulfilledWith Sample.sonikro) /\
  settle
    (createCrudThunk (F := unit) (T := User) OpDelete "user" "user"
       (fun user : User => Returns (Rejects (JsString "Not Found"))))
    Sample.existing = Some (RejectedWithValue (JsString "Not Found")).
Proof.
  split.
  - apply (crud_thunk_settles (F := unit) OpCreate "user" "user"
             (fun user : User => Returns (Resolves (mkUser (Some "1"%string) (name user))))
             (mkUser None "Sonikro")).
    reflexivity.
  - apply (crud_thunk_settles (F := unit) (T := User) OpDelete "user" "user"
             (fun user : User => Returns (Rejects (JsString "Not Found")))
             Sample.existing).
    reflexivity.
Defined.

(** ** Repeating a fulfilled payload *)

Section Idempotence.
Context {T F : Type} `{HasId T}.

Import JsArray JsArrayFacts.

Lemma operationFulfilled_update (s : EntityState T F) (p : T) :
  operationFulfilled OpUpdate p s =
  set_entityList
    (map (fun e => if strictEq (id e) (id p) then p else e) (entityList s)) s.
Proof.
  unfold operationFulfilled. cbv zeta. simpl entityList.
  rewrite splice_all. reflexivity.
Qed.

Lemma operationFulfilled_list (s : EntityState T F) (payload : list T) :
  operationFulfilled OpList payload s = set_entityList payload s.
Proof.
  unfold operationFulfilled. cbv zeta. simpl entityList.
  rewrite splice_all. reflexivity.
Qed.

Lemma idempotent_update : idempotent T F OpUpdate.
Proof.
  intros s p. simpl in p.
  rewrite !operationFulfilled_update. unfold set_entityList. simpl.
  f_equal. rewrite map_map. apply map_ext. intros e.
  destruct (strictEq (id e) (id p)) eqn:He.
  - now rewrite strictEq_refl.
  - now rewrite He.
Qed.

Lemma idempotent_list : idempotent T F OpList.
Proof. intros s p. rewrite !operationFulfilled_list. reflexivity. Qed.

Lemma idempotent_get : idempotent T F OpGet.
Proof. intros s p. reflexivity. Qed.

Lemma create_twice_differs (s : EntityState T F) (p : T) :
  operationFulfilled OpCreate p (operationFulfilled OpCreate p s) <>
  operationFulfilled OpCreate p s.
Proof.
  intros Heq. apply (f_equal (fun st => List.length (entityList st))) in Heq.
  simpl in Heq. unfold push in Heq. rewrite !length_app in Heq.
  simpl in Heq. lia.
Qed.

Lemma delete_twice_differs (a b : T) :
  id a <> id b ->
  let s := mkEntityState false (JsString (F := F) EmptyString) [a; b] None in
  entityList (operationFulfilled OpDelete b s) = [a] /\
  entityList (operationFulfilled OpDelete b (operationFulfilled OpDelete b s)) = [].
Proof.
  intros Hab. apply strictEq_false_iff in Hab. simpl.
  unfold findIndex. simpl. rewrite Hab, strictEq_refl. simpl.
  rewrite Hab. split; reflexivity.
Qed.

(** C9: the merge policies of [update], [list] and [get] are idempotent.
    That of [create] is not, as soon as there is an entity to create: a
    second create appends the payload again.  That of [delete] is not
    either, as soon as two entities differ in their identifier: the first
    delete cuts the list at the match, the second finds no match and
    removes the last element left. *)
Theorem merge_policies_idempotence :
  idempotent T F OpUpdate /\ idempotent T F OpList /\ idempotent T F OpGet /\
  (T -> ~ idempotent T F OpCreate) /\
  (forall a b : T, id a <> id b -> ~ idempotent T F OpDelete).
Proof.
  split; [exact idempotent_update|]. split; [exact idempotent_list|].
  split; [exact idempotent_get|]. split.
  - intros p Hidem.
    exact (create_twice_differs
             (mkEntityState false (JsString EmptyString) [] None) p
             (Hidem _ p)).
  - intros a b Hab Hidem. destruct (delete_twice_differs a b Hab) as [Honce Htwice].
    specialize (Hidem (mkEntityState false (JsString EmptyString) [a; b] None) b).
    apply (f_equal (@entityList T F)) in Hidem.
    rewrite Honce, Htwice in Hidem. discriminate.
Qed.
End Idempotence.

Lemma merge_policies_idempotence_witness :
  ~ idempotent User unit OpCreate /\
  ~ idempotent User unit OpDelete.
Proof.
  destruct (merge_policies_idempotence (T := User) (F := unit))
    as (_ & _ & _ & Hcreate & Hdelete).
  split.
  - exact (Hcreate Sample.sonikro).
  - apply (Hdelete Sample.sonikro Sample.other). discriminate.
Defined.

(** ** Action types *)

Section StringFacts.
Local Open Scope string_scope.

Lemma append_assoc (a b c : string) : (a ++ b) ++ c = a ++ (b ++ c).
Proof. induction a as [|ch a IH]; simpl; [reflexivity | now rewrite IH]. Qed.

Lemma append_inj_l (a b c : string) : a ++ b = a ++ c -> b = c.
Proof.
  induction a as [|ch a IH]; simpl; intros Heq; [exact Heq|].
  injection Heq as Heq. now apply IH.
Qed.

Lemma crudActionName_append_inj (k1 k2 : CrudAction) (r1 r2 : string) :
  crudActionName k1 ++ r1 = crudActionName k2 ++ r2 -> k1 = k2 /\ r1 = r2.
Proof.
  destruct k1, k2; simpl; intros Heq; try discriminate;
    injection Heq as Heq; split; (reflexivity || exact Heq).
Qed.

Lemma phaseName_inj (ph1 ph2 : Phase) :
  phaseName ph1 = phaseName ph2 -> ph1 = ph2.
Proof. destruct ph1, ph2; simpl; intros Heq; (reflexivity || discriminate). Qed.
End StringFacts.

Section TypePrefix.
Context {F : Type}.
Local Open Scope string_scope.

(** X1: within one slice, two thunks get the same type prefix only when they
    are made for the same operation and the same entity name. *)
Theorem typePrefix_injective {T1 P1 T2 P2 : Type} (slice : string)
    (op1 op2 : CrudAction) (name1 name2 : string)
    (f1 : P1 -> Completion F (Promise F T1))
    (f2 : P2 -> Completion F (Promise F T2)) :
  typePrefix (createCrudThunk op1 slice name1 f1) =
  typePrefix (createCrudThunk op2 slice name2 f2) ->
  op1 = op2 /\ name1 = name2.
Proof.
  simpl. intros Heq. apply append_inj_l in Heq. simpl in Heq.
  injection Heq as Heq. now apply crudActionName_append_inj.
Qed.

(** X2: across slices the type prefix does not tell thunks apart: the [get]
    thunk of one slice and the [list] thunk of another can carry the same
    prefix. *)
Theorem typePrefix_collides_across_slices {T P : Type}
    (f : P -> Completion F (Promise F T)) :
  exists slice1 name1 slice2 name2,
    slice1 <> slice2 /\
    typePrefix (createCrudThunk OpGet slice1 name1 f) =
    typePrefix (createCrudThunk OpList slice2 name2 f).
Proof.
  exists "a", "/listb", "a/get", "b". split; [discriminate | reflexivity].
Qed.
End TypePrefix.

Lemma typePrefix_injective_witness :
  OpCreate = OpCreate /\ "user"%string = "user"%string.
Proof.
  apply (typePrefix_injective (F := unit) "user" OpCreate OpCreate "user" "user"
           (EntityService.create Mock.MockUserService)
           (EntityService.update Mock.MockUserService)).
  reflexivity.
Defined.

Section BundleTypes.
Context {F T IDType ListParameters : Type} `{HasId T}.
Variables (slice entityName : string).
Variable entityService : EntityService.t F T IDType ListParameters.
Local Open Scope string_scope.

Let crudThunks := createCrudThunks slice entityName entityService.

Lemma typePrefix_thunkOf (key : CrudAction) :
  typePrefix (thunkOf crudThunks key) =
  slice ++ "/" ++ crudActionName key ++ entityName.
Proof. destruct key; reflexivity. Qed.

(** The action types of the bundle tell the key and the phase. *)
Lemma phaseType_inj (k1 k2 : CrudAction) (ph1 ph2 : Phase) :
  phaseType (thunkOf crudThunks k1) ph1 = phaseType (thunkOf crudThunks k2) ph2 ->
  k1 = k2 /\ ph1 = ph2.
Proof.
  unfold phaseType. rewrite !typePrefix_thunkOf, !append_assoc.
  intros Heq. apply append_inj_l in Heq. simpl in Heq.
  injection Heq as Heq.
  apply crudActionName_append_inj in Heq. destruct Heq as [-> Heq].
  apply append_inj_l in Heq. simpl in Heq. injection Heq as Heq.
  split; [reflexivity | now apply phaseName_inj].
Qed.

(** X3: the five thunks of a bundle have pairwise different type prefixes,
    whatever the slice, the entity name and the service. *)
Theorem createCrudThunks_typePrefixes_NoDup :
  NoDup (map (fun key => typePrefix (thunkOf
                (createCrudThunks slice entityName entityService) key))
             crudKeys).
Proof.
  assert (Hinj : forall k1 k2,
             typePrefix (thunkOf crudThunks k1) = typePrefix (thunkOf crudThunks k2) ->
             k1 = k2).
  { intros k1 k2 Heq. rewrite !typePrefix_thunkOf in Heq.
    apply append_inj_l in Heq. simpl in Heq. injection Heq as Heq.
    now apply crudActionName_append_inj in Heq. }
  fold crudThunks. unfold crudKeys. cbn [map].
  repeat (constructor;
          [cbn [In]; intros Hin;
           repeat (destruct Hin as [Hin|Hin]; [apply Hinj in Hin; discriminate|]);
           exact Hin|]).
  constructor.
Qed.
End BundleTypes.

(** ** What [registerCrudReducers] registers *)

Section Registration.
Context {F T IDType ListParameters : Type} `{HasId T}.
Variables (slice entityName : string).
Variable entityService : EntityService.t F T IDType ListParameters.

Let crudThunks := createCrudThunks slice entityName entityService.

(** The cases one key adds, in the order of the three [addCase] calls. *)
Let casesOf (key : CrudAction) : list (Case T F) :=
  [CasePending (phaseType (thunkOf crudThunks key) PhasePending) pendingCase;
   CaseFulfilled (phaseType (thunkOf crudThunks key) PhaseFulfilled) key
     (fulfilledCase key);
   CaseRejected (phaseType (thunkOf crudThunks key) PhaseRejected) rejectedCase].

Lemma registerCrudReducers_cases (builder : list (Case T F)) :
  registerCrudReducers builder crudThunks = builder ++ flat_map casesOf crudKeys.
Proof.
  unfold registerCrudReducers, addCase, crudKeys. cbn [fold_left flat_map casesOf].
  rewrite <- !app_assoc. reflexivity.
Qed.

Lemma registered_types_NoDup :
  NoDup (map caseType (flat_map casesOf crudKeys)).
Proof.
  unfold crudKeys. cbn [flat_map casesOf app map caseType].
  repeat (constructor;
          [cbn [In]; intros Hin;
           repeat (destruct Hin as [Hin|Hin];
                   [apply phaseType_inj in Hin; destruct Hin; discriminate|]);
           exact Hin|]).
  constructor.
Qed.

Lemma in_crudKeys (key : CrudAction) : In key crudKeys.
Proof. destruct key; cbn; tauto. Qed.

Lemma find_by_type (l : list (Case T F)) (c : Case T F) :
  NoDup (map caseType l) -> In c l ->
  find (fun c' => String.eqb (caseType c') (caseType c)) l = Some c.
Proof.
  induction l as [|c0 l IH]; cbn [map find In]; intros Hnd Hin; [contradiction|].
  inversion Hnd as [|? ? Hnotin Hnd']; subst.
  destruct Hin as [->|Hin]; [now rewrite String.eqb_refl|].
  destruct (String.eqb_spec (caseType c0) (caseType c)) as [Heq|_].
  - exfalso. apply Hnotin. rewrite Heq. now apply in_map.
  - now apply IH.
Qed.


(** X5: on the builder [registerCrudReducers] fills from empty with the
    thunks of [createCrudThunks], the reducer of the host runs, for every
    lifecycle action, exactly the case reducer of its phase and key: it is
    [crudReducer]. *)
Theorem reduce_registered_is_crudReducer (state : EntityState T F)
    (action : Action T F) :
  reduce
    (registerCrudReducers [] (createCrudThunks slice entityName entityService))
    (createCrudThunks slice entityName entityService) state action =
  Some (crudReducer state action).
Proof.
  fold crudThunks. rewrite registerCrudReducers_cases. cbn [app].
  unfold reduce.
  assert (Hin : forall k c, In c (casesOf k) -> In c (flat_map casesOf crudKeys)).
  { intros k c Hc. apply in_flat_map. exists k. split; [apply in_crudKeys | exact Hc]. }
  destruct action as [k|k payload|k payload]; cbn [actionType].
  - pose proof (find_by_type _
                  (CasePending (phaseType (thunkOf crudThunks k) PhasePending)
                     pendingCase) registered_types_NoDup) as Hfind.
    cbn [caseType] in Hfind. rewrite Hfind; [reflexivity|].
    apply (Hin k). cbn. tauto.
  - pose proof (find_by_type _
                  (CaseFulfilled (phaseType (thunkOf crudThunks k) PhaseFulfilled)
                     k (fulfilledCase k)) registered_types_NoDup) as Hfind.
    cbn [caseType] in Hfind. rewrite Hfind.
    + cbn [runCase]. destruct k; reflexivity.
    + apply (Hin k). cbn. tauto.
  - pose proof (find_by_type _
                  (CaseRejected (phaseType (thunkOf crudThunks k) PhaseRejected)
                     rejectedCase) registered_types_NoDup) as Hfind.
    cbn [caseType] in Hfind. rewrite Hfind; [reflexivity|].
    apply (Hin k). cbn. tauto.
Qed.
End Registration.

(** ** What a thunk does with its service function *)

Section ThunkOutcomes.
Context {F T P : Type}.
Variables (operation : CrudAction) (slice entityName : string).
Variable serviceFunction : P -> Completion F (Promise F T).

(** X6: a service function that throws before it returns a promise is caught
    like a rejected promise: the thunk settles rejected with the thrown
    value. *)
Theorem crud_thunk_catches_synchronous_throw (actionPayload : P) (e : JsValue F) :
  serviceFunction actionPayload = Throws e ->
  settle (createCrudThunk operation slice entityName serviceFunction)
    actionPayload = Some (RejectedWithValue e).
Proof. intros Hthrow. unfold settle. simpl. now rewrite Hthrow. Qed.

(** X7: the thunk stays unsettled exactly when the promise of the service
    function never settles. *)
Theorem crud_thunk_pending_iff_never_settles (actionPayload : P) :
  settle (createCrudThunk operation slice entityName serviceFunction)
    actionPayload = None <->
  serviceFunction actionPayload = Returns NeverSettles.
Proof.
  unfold settle. simpl.
  destruct (serviceFunction actionPayload) as [[v|e|]|e]; simpl;
    split; intros Heq; (reflexivity || discriminate).
Qed.
End ThunkOutcomes.

Lemma crud_thunk_catches_synchronous_throw_witness :
  settle
    (createCrudThunk OpDelete "user" "user"
       (EntityService.delete (Mock.failing (JsString "boom"))))
    Sample.existing = Some (RejectedWithValue (JsString "boom")).
Proof.
  apply (crud_thunk_catches_synchronous_throw OpDelete "user" "user"
           (EntityService.delete (Mock.failing (JsString "boom")))
           Sample.existing (JsString "boom")).
  reflexivity.
Defined.

(** ** Dispatching a thunk of the bundle *)

Section Dispatch.
Context {F T IDType ListParameters : Type} `{HasId T}.
Variables (slice entityName : string).
Variable entityService : EntityService.t F T IDType ListParameters.

Lemma settle_thunkOf (key : CrudAction) (arg : ArgOf T IDType ListParameters key) :
  settle (thunkOf (createCrudThunks slice entityName entityService) key) arg =
  settle (createCrudThunk key slice entityName (serviceOf entityService key)) arg.
Proof. destruct key; reflexivity. Qed.

(** X21: the pending reducer leaves nothing behind once an action settles:
    a fulfilled or rejected action gives the same state after a pending action
    as without it, whatever the keys of the two. *)
Lemma pending_then_settled (state : EntityState T F) (k k' : CrudAction) :
  (forall payload : PayloadOf T k',
     crudReducer (crudReducer state (Pending k)) (Fulfilled k' payload) =
     crudReducer state (Fulfilled k' payload)) /\
  (forall e : JsValue F,
     crudReducer (crudReducer state (Pending k)) (Rejected k' e) =
     crudReducer state (Rejected k' e)).
Proof. split; [intros payload; destruct k'; reflexivity | reflexivity]. Qed.

(** X8: a dispatch of the thunk of [key], awaited, is decided by what the
    service function of that key does with the argument: the state is the
    fulfilled reducer's on the prior state when its promise resolves, the
    rejected reducer's when its promise rejects or the call throws, and the
    pending reducer's when its promise never settles. *)
Theorem dispatch_by_service_outcome (key : CrudAction)
    (arg : ArgOf T IDType ListParameters key) (state : EntityState T F) :
  dispatch (createCrudThunks slice entityName entityService) key arg state =
  match serviceOf entityService key arg with
  | Returns (Resolves v) => crudReducer state (Fulfilled key v)
  | Returns (Rejects e) => crudReducer state (Rejected key e)
  | Returns NeverSettles => crudReducer state (Pending key)
  | Throws e => crudReducer state (Rejected key e)
  end.
Proof.
  unfold dispatch. rewrite settle_thunkOf. unfold settle. simpl payloadCreator.
  destruct (serviceOf entityService key arg) as [[v|e|]|e]; cbn.
  - destruct key; reflexivity.
  - reflexivity.
  - reflexivity.
  - reflexivity.
Qed.

(** X9: a dispatch whose service call fails, by a rejected promise or by a
    throw, leaves the list and the selection as they were before the
    dispatch, with [isLoading] false and the failure value in [error]. *)
Theorem dispatch_failure_keeps_entities (key : CrudAction)
    (arg : ArgOf T IDType ListParameters key) (state : EntityState T F)
    (e : JsValue F) :
  serviceOf entityService key arg = Returns (Rejects e) \/
  serviceOf entityService key arg = Throws e ->
  let state' :=
    dispatch (createCrudThunks slice entityName entityService) key arg state in
  entityList state' = entityList state /\
  selectedEntity state' = selectedEntity state /\
  isLoading state' = false /\
  error state' = e.
Proof.
  intros Hfail. cbv zeta. unfold dispatch. rewrite settle_thunkOf.
  unfold settle. simpl payloadCreator.
  destruct Hfail as [-> | ->]; repeat split.
Qed.
End Dispatch.

Lemma dispatch_failure_keeps_entities_witness :
  entityList
    (dispatch
       (createCrudThunks "user" "user" (Mock.failing (JsString "boom")))
       OpUpdate Sample.updated (Sample.stateOf [Sample.existing]))
  = [Sample.existing] /\
  error
    (dispatch
       (createCrudThunks "user" "user" (Mock.failing (JsString "boom")))
       OpDelete Sample.existing (Sample.stateOf [Sample.existing]))
  = JsString "boom".
Proof.
  split.
  - apply (dispatch_failure_keeps_entities "user" "user"
             (Mock.failing (JsString "boom")) OpUpdate Sample.updated
             (Sample.stateOf [Sample.existing]) (JsString "boom")).
    left. reflexivity.
  - apply (dispatch_failure_keeps_entities "user" "user"
             (Mock.failing (JsString "boom")) OpDelete Sample.existing
             (Sample.stateOf [Sample.existing]) (JsString "boom")).
    right. reflexivity.
Defined.

(** ** More on the merge policy of [delete] *)

Section DeleteMore.
Context {T F : Type} `{HasId T}.
Implicit Types (s : EntityState T F) (p e : T).

Import JsArray JsArrayFacts.

(** A list has a first element that satisfies [pred], or none at all. *)
Lemma first_match_split (pred : T -> bool) (l : list T) :
  (forall e, In e l -> pred e = false) \/
  (exists pre x post,
     l = pre ++ x :: post /\ (forall e, In e pre -> pred e = false) /\ pred x = true).
Proof.
  induction l as [|y l IH].
  - left. intros e [].
  - destruct (pred y) eqn:Hy.
    + right. exists [], y, l. split; [reflexivity|]. split; [intros e []|exact Hy].
    + destruct IH as [Hno | (pre & x & post & -> & Hpre & Hx)].
      * left. intros e [<-|He]; [exact Hy | now apply Hno].
      * right. exists (y :: pre), x, post. split; [reflexivity|].
        split; [|exact Hx]. intros e [<-|He]; [exact Hy | now apply Hpre].
Qed.

(** The two ways the policy can go, by the list before it. *)
Lemma delete_cases s p :
  ((forall e, In e (entityList s) -> id e <> id p) /\
   entityList (crudReducer s (Fulfilled OpDelete p)) = removelast (entityList s)) \/
  (exists pre x post,
     entityList s = pre ++ x :: post /\
     (forall e, In e pre -> id e <> id p) /\ id x = id p /\
     entityList (crudReducer s (Fulfilled OpDelete p)) = pre).
Proof.
  destruct (first_match_split (fun e => strictEq (id e) (id p)) (entityList s))
    as [Hno | (pre & x & post & Hl & Hpre & Hx)].
  - left. assert (Hno' : forall e, In e (entityList s) -> id e <> id p).
    { intros e He. now apply strictEq_false_iff, Hno. }
    split; [exact Hno'|].
    rewrite delete_entityList. unfold findIndex.
    rewrite findIndexFrom_none by exact Hno. apply spliceFrom_minus1.
  - right. exists pre, x, post.
    assert (Hpre' : forall e, In e pre -> id e <> id p).
    { intros e He. now apply strictEq_false_iff, Hpre. }
    apply strictEq_true_iff in Hx.
    repeat split; try assumption.
    exact (delete_keeps_prefix s p pre x post Hl Hpre' Hx).
Qed.

(** X10: whatever the list and the payload, what the delete-fulfilled
    reducer leaves is a prefix of the list before, and no entity left in it
    has the payload's identifier. *)
Theorem delete_fulfilled_leaves_clean_prefix s p :
  let l' := entityList (crudReducer s (Fulfilled OpDelete p)) in
  (exists removed, entityList s = l' ++ removed) /\
  (forall e, In e l' -> id e <> id p).
Proof.
  cbv zeta.
  destruct (delete_cases s p) as [[Hno Hl'] | (pre & x & post & Hl & Hpre & _ & Hl')];
    rewrite Hl'.
  - destruct (entityList s) as [|y l] eqn:El.
    + split; [exists []; reflexivity | intros e []].
    + assert (Hne : y :: l <> []) by discriminate.
      split.
      * exists [last (y :: l) y]. now apply app_removelast_last.
      * intros e He. apply Hno.
        rewrite (app_removelast_last y Hne). apply in_or_app. now left.
  - split; [exists (x :: post); exact Hl | exact Hpre].
Qed.

(** X11: the delete-fulfilled reducer leaves the list as it was only when
    the list is empty: on a non-empty list it always removes something,
    match or no match. *)
Theorem delete_fulfilled_unchanged_iff_empty s p :
  entityList (crudReducer s (Fulfilled OpDelete p)) = entityList s <->
  entityList s = [].
Proof.
  split.
  - intros Hsame.
    destruct (delete_cases s p) as [[_ Hl'] | (pre & x & post & Hl & _ & _ & Hl')];
      rewrite Hl' in Hsame.
    + destruct (entityList s) as [|y l]; [reflexivity|].
      assert (Hne : y :: l <> []) by discriminate.
      apply (f_equal (@List.length T)) in Hsame.
      rewrite (app_removelast_last y Hne) in Hsame at 2.
      rewrite length_app in Hsame. simpl in Hsame. lia.
    + rewrite Hl in Hsame. apply (f_equal (@List.length T)) in Hsame.
      rewrite length_app in Hsame. simpl in Hsame. lia.
  - intros Hnil. rewrite delete_entityList, Hnil. reflexivity.
Qed.

(** X12: an entity created and then deleted leaves the list as it was
    before the two, provided no entity of the list had its identifier. *)
Theorem create_then_delete_restores_list s p :
  (forall e, In e (entityList s) -> id e <> id p) ->
  entityList
    (crudReducer (crudReducer s (Fulfilled OpCreate p)) (Fulfilled OpDelete p))
  = entityList s.
Proof.
  intros Hno.
  apply (delete_keeps_prefix (crudReducer s (Fulfilled OpCreate p)) p
           (entityList s) p []); [reflexivity | exact Hno | reflexivity].
Qed.
End DeleteMore.

Lemma create_then_delete_restores_list_witness :
  entityList
    (crudReducer
       (crudReducer (Sample.stateOf [Sample.existing; Sample.other])
          (Fulfilled OpCreate Sample.sonikro))
       (Fulfilled OpDelete Sample.sonikro))
  = [Sample.existing; Sample.other].
Proof.
  apply (create_then_delete_restores_list
           (Sample.stateOf [Sample.existing; Sample.other]) Sample.sonikro).
  intros e [<-|[<-|[]]]; discriminate.
Defined.

Lemma delete_fulfilled_length_drop_witness :
  S (List.length
       (entityList
          (crudReducer (Sample.stateOf [Sample.sonikro; Sample.other])
             (Fulfilled OpDelete Sample.other))))
  = List.length (entityList (Sample.stateOf [Sample.sonikro; Sample.other])).
Proof.
  apply (delete_fulfilled_length_drop
           (Sample.stateOf [Sample.sonikro; Sample.other]) Sample.other 1
           Sample.other).
  - reflexivity.
  - reflexivity.
  - intros [|j] e Hj Hn; [|lia]. injection Hn as <-. discriminate.
  - reflexivity.
Defined.

(** ** More on the merge policy of [update] *)

Section UpdateMore.
Context {T F : Type} `{HasId T}.
Implicit Types (s : EntityState T F) (p q e : T).

Lemma update_state s p :
  crudReducer s (Fulfilled OpUpdate p) =
  mkEntityState false (JsString EmptyString)
    (map (replaceWith p) (entityList s)) (selectedEntity s).
Proof.
  unfold crudReducer, fulfilledCase. rewrite operationFulfilled_update.
  reflexivity.
Qed.

Lemma id_replaceWith p e : id (replaceWith p e) = id e.
Proof.
  unfold replaceWith. destruct (strictEq (id e) (id p)) eqn:He; [|reflexivity].
  symmetry. now apply strictEq_true_iff.
Qed.

(** X13: the update-fulfilled reducer never changes which identifier sits
    at which position of the list. *)
Theorem update_fulfilled_keeps_identifiers s p :
  map id (entityList (crudReducer s (Fulfilled OpUpdate p))) =
  map id (entityList s).
Proof.
  rewrite update_state. cbn [entityList]. rewrite map_map.
  apply map_ext. intros e. apply id_replaceWith.
Qed.

(** X14: after the update-fulfilled reducer, every entity of the list that
    has the payload's identifier is the payload. *)
Theorem update_fulfilled_unifies_matches s p e :
  In e (entityList (crudReducer s (Fulfilled OpUpdate p))) ->
  id e = id p -> e = p.
Proof.
  rewrite update_state. cbn [entityList]. intros Hin Hid.
  apply in_map_iff in Hin. destruct Hin as (e0 & <- & _).
  unfold replaceWith in *. destruct (strictEq (id e0) (id p)) eqn:He0.
  - reflexivity.
  - apply strictEq_false_iff in He0. contradiction.
Qed.

(** X15: two updates whose payloads have different identifiers commute. *)
Theorem update_fulfilled_commute s p q :
  id p <> id q ->
  crudReducer (crudReducer s (Fulfilled OpUpdate p)) (Fulfilled OpUpdate q) =
  crudReducer (crudReducer s (Fulfilled OpUpdate q)) (Fulfilled OpUpdate p).
Proof.
  intros Hpq. rewrite !update_state. cbn [entityList selectedEntity].
  f_equal. rewrite !map_map. apply map_ext. intros e. unfold replaceWith.
  assert (Hqp : strictEq (id q) (id p) = false).
  { apply strictEq_false_iff. congruence. }
  assert (Hpq' : strictEq (id p) (id q) = false).
  { now apply strictEq_false_iff. }
  destruct (strictEq (id e) (id p)) eqn:Hep, (strictEq (id e) (id q)) eqn:Heq;
    rewrite ?Hqp, ?Hpq', ?Hep, ?Heq; try reflexivity.
  apply strictEq_true_iff in Hep, Heq. congruence.
Qed.

(** X16: of two updates whose payloads have the same identifier the second
    wins: the first leaves no trace. *)
Theorem update_fulfilled_last_wins s p q :
  id p = id q ->
  crudReducer (crudReducer s (Fulfilled OpUpdate p)) (Fulfilled OpUpdate q) =
  crudReducer s (Fulfilled OpUpdate q).
Proof.
  intros Hpq. rewrite !update_state. cbn [entityList selectedEntity].
  f_equal. rewrite map_map. apply map_ext. intros e. unfold replaceWith.
  rewrite Hpq. destruct (strictEq (id e) (id q)) eqn:He.
  - now rewrite Hpq, strictEq_refl.
  - now rewrite He.
Qed.
End UpdateMore.

Lemma update_fulfilled_unifies_matches_witness :
  Sample.updated = Sample.updated.
Proof.
  apply (update_fulfilled_unifies_matches
           (Sample.stateOf [Sample.other; Sample.existing]) Sample.updated
           Sample.updated).
  - right. left. reflexivity.
  - reflexivity.
Defined.

Lemma update_fulfilled_commute_witness :
  crudReducer
    (crudReducer (Sample.stateOf [Sample.existing; Sample.sonikro])
       (Fulfilled OpUpdate Sample.updated))
    (Fulfilled OpUpdate (Sample.user "1" "Renamed")) =
  crudReducer
    (crudReducer (Sample.stateOf [Sample.existing; Sample.sonikro])
       (Fulfilled OpUpdate (Sample.user "1" "Renamed")))
    (Fulfilled OpUpdate Sample.updated).
Proof.
  apply (update_fulfilled_commute
           (Sample.stateOf [Sample.existing; Sample.sonikro])
           Sample.updated (Sample.user "1" "Renamed")).
  discriminate.
Defined.

Lemma update_fulfilled_last_wins_witness :
  crudReducer
    (crudReducer (Sample.stateOf [Sample.existing])
       (Fulfilled OpUpdate (Sample.user "10" "Draft")))
    (Fulfilled OpUpdate Sample.updated) =
  crudReducer (Sample.stateOf [Sample.existing]) (Fulfilled OpUpdate Sample.updated).
Proof.
  apply (update_fulfilled_last_wins (Sample.stateOf [Sample.existing])
           (Sample.user "10" "Draft") Sample.updated).
  reflexivity.
Defined.

(** ** Sequences of actions *)

Section Runs.
Context {T F : Type} `{HasId T}.
Implicit Types (s : EntityState T F) (a : Action T F).

Lemma entityList_step s a :
  writesList a = false -> entityList (crudReducer s a) = entityList s.
Proof.
  destruct a as [k|k payload|k payload]; [reflexivity| |reflexivity].
  destruct k; simpl; intros Hw; (discriminate || reflexivity).
Qed.

Lemma selectedEntity_step s a :
  isGetFulfilled a = false -> selectedEntity (crudReducer s a) = selectedEntity s.
Proof.
  destruct a as [k|k payload|k payload]; [reflexivity| |reflexivity].
  destruct k; simpl; intros Hg; (discriminate || reflexivity).
Qed.

(** X17: over any sequence of actions, the list changes only through the
    fulfilled actions of [create], [update], [delete] and [list]: a sequence
    without them leaves it as it was. *)
Theorem reduceAll_keeps_entityList (actions : list (Action T F)) s :
  forallb (fun a => negb (writesList a)) actions = true ->
  entityList (reduceAll s actions) = entityList s.
Proof.
  revert s. induction actions as [|a actions IH]; intros s Hall; [reflexivity|].
  cbn [forallb] in Hall. apply andb_true_iff in Hall. destruct Hall as [Ha Hall].
  apply negb_true_iff in Ha. unfold reduceAll in *. cbn [fold_left].
  rewrite (IH _ Hall). now apply entityList_step.
Qed.

(** X18: over any sequence of actions, the selection changes only through
    the fulfilled action of [get]: a sequence without it leaves the selection
    as it was. *)
Theorem reduceAll_keeps_selectedEntity (actions : list (Action T F)) s :
  forallb (fun a => negb (isGetFulfilled a)) actions = true ->
  selectedEntity (reduceAll s actions) = selectedEntity s.
Proof.
  revert s. induction actions as [|a actions IH]; intros s Hall; [reflexivity|].
  cbn [forallb] in Hall. apply andb_true_iff in Hall. destruct Hall as [Ha Hall].
  apply negb_true_iff in Ha. unfold reduceAll in *. cbn [fold_left].
  rewrite (IH _ Hall). now apply selectedEntity_step.
Qed.

(** X19: the loading flag and the error after a sequence of actions are
    those of its last action alone.  The flag does not count the dispatches
    in flight: when one of two pending operations settles, [isLoading] is
    false although the other is still pending. *)
Theorem reduceAll_flags_of_last_action (actions : list (Action T F)) a s :
  isLoading (reduceAll s (actions ++ [a])) =
    match a with Pending _ => true | _ => false end /\
  error (reduceAll s (actions ++ [a])) =
    match a with Rejected _ e => e | _ => JsString EmptyString end.
Proof.
  unfold reduceAll. rewrite fold_left_app. cbn [fold_left].
  destruct a as [k|k payload|k payload]; [split; reflexivity| |split; reflexivity].
  apply (operationFulfilled_flags k payload).
Qed.
End Runs.

Lemma reduceAll_keeps_entityList_witness :
  entityList
    (reduceAll (Sample.stateOf [Sample.existing])
       [Pending OpDelete; Rejected OpDelete (JsString "boom");
        Pending OpGet; Fulfilled OpGet Sample.sonikro])
  = [Sample.existing].
Proof.
  apply (reduceAll_keeps_entityList
           [Pending OpDelete; Rejected OpDelete (JsString "boom");
            Pending OpGet; Fulfilled OpGet Sample.sonikro]
           (Sample.stateOf [Sample.existing])).
  reflexivity.
Defined.

Lemma reduceAll_keeps_selectedEntity_witness :
  selectedEntity
    (reduceAll
       (mkEntityState false (JsString (F := unit) EmptyString) []
          (Some Sample.sonikro))
       [Pending OpList; Fulfilled OpList [Sample.existing; Sample.sonikro];
        Pending OpDelete; Fulfilled OpDelete Sample.sonikro])
  = Some Sample.sonikro.
Proof.
  apply (reduceAll_keeps_selectedEntity
           [Pending OpList; Fulfilled OpList [Sample.existing; Sample.sonikro];
            Pending OpDelete; Fulfilled OpDelete Sample.sonikro]
           (mkEntityState false (JsString (F := unit) EmptyString) []
              (Some Sample.sonikro))).
  reflexivity.
Defined.
